(** * Symbol-visibility macros and the link-chain fixtures of xmake-rs

    The repository's fixtures are two headers ([bar/bar.h], [foo/foo.h]) and
    one translation unit ([target.c]).  Almost everything they do happens in
    the C preprocessor, so the development has two layers:

    - [Cpp]: the fragment of the preprocessor the sources use (conditional
      inclusion, object-like and function-like macros, [#undef], [#include])
      and the three sources written out line by line;
    - [Run]: the function [target] of [target.c] as a computation that may
      abort, and the libraries linked into one process.  *)

From Stdlib Require Import ZArith.
From stdpp Require Import gmap strings list.

Local Open Scope string_scope.
Local Open Scope list_scope.
Local Open Scope Z_scope.

(** ** Results of fallible steps *)

Inductive cpp_error :=
  | ElseWithoutIf
  | EndifWithoutIf
  | UnterminatedConditional
  | MissingHeader (h : string)
  | Redefined (m : string)
  | BadInvocation (m : string)
  | NestingTooDeep
  | UnknownDefinition.

Inductive result (A : Type) :=
  | Ok (a : A)
  | Err (e : cpp_error).
Arguments Ok {A} a.
Arguments Err {A} e.

#[global] Instance result_ret : MRet result := fun _ a => Ok a.
#[global] Instance result_bind : MBind result := fun _ _ f r =>
  match r with Ok a => f a | Err e => Err e end.
#[global] Instance result_fmap : FMap result := fun _ _ f r =>
  match r with Ok a => Ok (f a) | Err e => Err e end.

Module Cpp.

(** ** Preprocessing tokens *)

Inductive token :=
  | Id (name : string)      (* identifiers and keywords *)
  | Num (n : Z)             (* integer constants *)
  | Str (s : string)        (* string literals, without the quotes *)
  | P (p : string).         (* punctuators *)

#[global] Instance token_eq_dec : EqDecision token.
Proof. solve_decision. Defined.

Inductive macro :=
  | ObjectLike (body : list token)
  | FunctionLike (params : list string) (body : list token).

#[global] Instance macro_eq_dec : EqDecision macro.
Proof. solve_decision. Defined.

(** One logical source line. *)
Inductive line :=
  | Ifdef (m : string)
  | Ifndef (m : string)
  | Else_
  | Endif
  | Define (m : string) (body : list token)
  | DefineFn (m : string) (params : list string) (body : list token)
  | Undef (m : string)
  | Include (h : string)
  | Text (ts : list token).

(** ** Macro replacement *)

(** The arguments of an invocation, read after its opening parenthesis:
    the comma-separated arguments and the number of tokens read, closing
    parenthesis included. *)
Fixpoint collect_args (ts : list token) (nest : nat) (cur : list token)
    (acc : list (list token)) (used : nat)
    : option (list (list token) * nat) :=
  match ts with
  | [] => None
  | t :: rest =>
      if decide (t = P ")") then
        match nest with
        | O => Some (reverse (reverse cur :: acc), S used)
        | S n => collect_args rest n (t :: cur) acc (S used)
        end
      else if decide (t = P "(") then
        collect_args rest (S nest) (t :: cur) acc (S used)
      else if decide (t = P "," ∧ nest = O) then
        collect_args rest O [] (reverse cur :: acc) (S used)
      else collect_args rest nest (t :: cur) acc (S used)
  end.

(** Which parameter an identifier of a replacement list names. *)
Fixpoint param_index (ps : list string) (x : string) : option nat :=
  match ps with
  | [] => None
  | p :: ps' => if decide (p = x) then Some O else S <$> param_index ps' x
  end.

Definition substitute (ps : list string) (args : list (list token))
    (body : list token) : list token :=
  t ← body;
  match t with
  | Id x =>
      match param_index ps x with
      | Some i => default [] (args !! i)
      | None => [t]
      end
  | _ => [t]
  end.

(** A macro with no parameter is invoked with one empty argument. *)
Definition arity_ok (ps : list string) (args : list (list token)) : bool :=
  bool_decide (length ps = length args)
  || bool_decide (ps = [] ∧ args = [[]]).

(** [scan rec M hide ts skip] replaces the macros of [ts] from left to
    right, after dropping its first [skip] tokens.  [hide] holds the names
    being replaced, which are not replaced again inside their own
    replacement (C11 6.10.3.4p2); [rec] replaces the macros of a nested
    list.  The arguments of a function-like macro are fully replaced before
    they are substituted (6.10.3.1), and a function-like macro that is not
    followed by a parenthesis is left alone. *)
Fixpoint scan (rec : list string → list token → result (list token))
    (M : gmap string macro) (hide : list string) (ts : list token)
    (skip : nat) : result (list token) :=
  match ts with
  | [] => Ok []
  | t :: rest =>
      match skip with
      | S k => scan rec M hide rest k
      | O =>
          match t with
          | Id x =>
              if decide (x ∈ hide) then (t ::.) <$> scan rec M hide rest O
              else
                match M !! x with
                | None => (t ::.) <$> scan rec M hide rest O
                | Some (ObjectLike body) =>
                    b ← rec (x :: hide) body;
                    r ← scan rec M hide rest O;
                    Ok (b ++ r)
                | Some (FunctionLike ps body) =>
                    if decide (head rest = Some (P "(")) then
                      match collect_args (tail rest) O [] [] O with
                      | None => Err (BadInvocation x)
                      | Some (args, used) =>
                          if arity_ok ps args then
                            args' ← mapM (rec hide) args;
                            b ← rec (x :: hide) (substitute ps args' body);
                            r ← scan rec M hide rest (S used);
                            Ok (b ++ r)
                          else Err (BadInvocation x)
                      end
                    else (t ::.) <$> scan rec M hide rest O
                end
          | _ => (t ::.) <$> scan rec M hide rest O
          end
      end
  end.

(** Each nested replacement uses one unit of [depth]. *)
Fixpoint expand_at (depth : nat) (M : gmap string macro) (hide : list string)
    (ts : list token) : result (list token) :=
  match depth with
  | O => Err NestingTooDeep
  | S d => scan (expand_at d M) M hide ts O
  end.

(** A chain of object-like macros nests at most as deep as there are macros;
    arguments add at most the nesting of their parentheses. *)
Definition expand (M : gmap string macro) (ts : list token)
    : result (list token) :=
  expand_at (S (size M) + length ts) M [] ts.

Definition object_like_only (M : gmap string macro) : Prop :=
  ∀ x m, M !! x = Some m → ∃ body, m = ObjectLike body.

(** ** Directives *)

(** An open conditional: whether the enclosing text is live, whether the
    condition of its [#ifdef]/[#ifndef] held, and whether its [#else] has
    been passed. *)
Record cond := Cond { enclosing : bool; holds : bool; in_else : bool }.

Definition live (conds : list cond) : bool :=
  match conds with
  | [] => true
  | c :: _ => enclosing c && (if in_else c then negb (holds c) else holds c)
  end.

Definition open_cond (b : bool) (conds : list cond) : list cond :=
  Cond (live conds) b false :: conds.

(** What a translation unit has accumulated so far: the macros currently
    defined and the text passed on to the compiler. *)
Record state := State { macros : gmap string macro; output : list token }.

Definition defined (m : string) (st : state) : bool :=
  bool_decide (is_Some (macros st !! m)).

(** [#define]: a macro may only be defined again with the same definition
    (C11 6.10.3p2). *)
Definition define (m : string) (d : macro) (st : state) : result state :=
  match macros st !! m with
  | None => Ok (State (<[m := d]> (macros st)) (output st))
  | Some d' => if decide (d' = d) then Ok st else Err (Redefined m)
  end.

Definition undef (m : string) (st : state) : state :=
  State (delete m (macros st)) (output st).

Definition emit (ts : list token) (st : state) : result state :=
  ts' ← expand (macros st) ts;
  Ok (State (macros st) (output st ++ ts')).

(** [run_lines inc headers ls conds st] preprocesses the lines [ls] of one
    file below the open conditionals [conds].  Conditionals open and close
    within the file; [#include] runs the lines of the header in place, by
    [inc].  Directives other than conditionals are skipped where the text
    is not live. *)
Fixpoint run_lines (inc : list line → state → result state)
    (headers : gmap string (list line)) (ls : list line) (conds : list cond)
    (st : state) : result state :=
  match ls with
  | [] =>
      match conds with
      | [] => Ok st
      | _ :: _ => Err UnterminatedConditional
      end
  | l :: rest =>
      match l with
      | Ifdef m =>
          run_lines inc headers rest (open_cond (defined m st) conds) st
      | Ifndef m =>
          run_lines inc headers rest (open_cond (negb (defined m st)) conds) st
      | Else_ =>
          match conds with
          | [] => Err ElseWithoutIf
          | c :: cs =>
              if in_else c then Err ElseWithoutIf
              else run_lines inc headers rest
                     (Cond (enclosing c) (holds c) true :: cs) st
          end
      | Endif =>
          match conds with
          | [] => Err EndifWithoutIf
          | _ :: cs => run_lines inc headers rest cs st
          end
      | Define m body =>
          if live conds then
            st' ← define m (ObjectLike body) st;
            run_lines inc headers rest conds st'
          else run_lines inc headers rest conds st
      | DefineFn m ps body =>
          if live conds then
            st' ← define m (FunctionLike ps body) st;
            run_lines inc headers rest conds st'
          else run_lines inc headers rest conds st
      | Undef m =>
          if live conds then run_lines inc headers rest conds (undef m st)
          else run_lines inc headers rest conds st
      | Include h =>
          if live conds then
            match headers !! h with
            | None => Err (MissingHeader h)
            | Some body =>
                st' ← inc body st;
                run_lines inc headers rest conds st'
            end
          else run_lines inc headers rest conds st
      | Text ts =>
          if live conds then
            st' ← emit ts st;
            run_lines inc headers rest conds st'
          else run_lines inc headers rest conds st
      end
  end.

(** [depth] bounds how deep inclusions nest. *)
Fixpoint run (depth : nat) (headers : gmap string (list line))
    (ls : list line) (st : state) : result state :=
  match depth with
  | O => Err NestingTooDeep
  | S d => run_lines (run d headers) headers ls [] st
  end.

(** Implementations bound the nesting of [#include]; 15 levels is the
    minimum the standard asks for (C11 5.2.4.1). *)
Definition include_depth : nat := 15.

(** ** The sources *)

Definition declspec (what : string) : list token :=
  [Id "__declspec"; P "("; Id what; P ")"].

Definition gnu_visibility_default : list token :=
  [P "["; P "["; Id "gnu"; P "::"; Id "visibility";
   P "("; Str "default"; P ")"; P "]"; P "]"].

(** [xmakers-repo/projects/bar/bar/bar.h] *)
Definition bar_h : list line :=
  [ Ifndef "XMAKERS_BAR_H";
    Define "XMAKERS_BAR_H" [];
    Ifndef "BAR_STATIC";
      Ifdef "_WIN32";
        Define "BAR_DLL_EXPORT" (declspec "dllexport");
        Define "BAR_DLL_IMPORT" (declspec "dllimport");
      Else_;
        Define "BAR_DLL_EXPORT" gnu_visibility_default;
        Define "BAR_DLL_IMPORT" gnu_visibility_default;
      Endif;
    Else_;
      Define "BAR_DLL_EXPORT" [];
      Define "BAR_DLL_IMPORT" [];
    Endif;
    Ifdef "BAR_BUILD";
      Define "BAR_PUBLIC_API" [Id "BAR_DLL_EXPORT"];
    Else_;
      Define "BAR_PUBLIC_API" [Id "BAR_DLL_IMPORT"];
    Endif;
    Text [Id "BAR_PUBLIC_API"; Id "int"; Id "bar"; P "("; P ")"; P ";"];
    Endif ].

(** [xmakers-repo/projects/foo/foo/foo.h] *)
Definition foo_h : list line :=
  [ Ifndef "XMAKERS_FOO_H";
    Define "XMAKERS_FOO_H" [];
    Ifndef "FOO_STATIC";
      Ifdef "_WIN32";
        Define "FOO_DLL_EXPORT" (declspec "dllexport");
        Define "FOO_DLL_IMPORT" (declspec "dllimport");
      Else_;
        Define "FOO_DLL_EXPORT" gnu_visibility_default;
        Define "FOO_DLL_IMPORT" gnu_visibility_default;
      Endif;
    Else_;
      Define "FOO_DLL_EXPORT" [];
      Define "FOO_DLL_IMPORT" [];
    Endif;
    Ifdef "FOO_BUILD";
      Define "FOO_PUBLIC_API" [Id "FOO_DLL_EXPORT"];
    Else_;
      Define "FOO_PUBLIC_API" [Id "FOO_DLL_IMPORT"];
    Endif;
    Text [Id "FOO_PUBLIC_API"; Id "int"; Id "foo"; P "("; P ")"; P ";"];
    Endif ].

(** [tests/packages/sht-shf-shb/src/target.c] *)
Definition target_c : list line :=
  [ Undef "NDEBUG";
    Include "assert.h";
    Include "bar/bar.h";
    Ifndef "TARGET_STATIC";
      Ifdef "_WIN32";
        Define "TARGET_DLL_EXPORT" (declspec "dllexport");
        Define "TARGET_DLL_IMPORT" (declspec "dllimport");
      Else_;
        Define "TARGET_DLL_EXPORT" gnu_visibility_default;
        Define "TARGET_DLL_IMPORT" gnu_visibility_default;
      Endif;
    Else_;
      Define "TARGET_DLL_EXPORT" [];
      Define "TARGET_DLL_IMPORT" [];
    Endif;
    Ifdef "TARGET_BUILD";
      Define "TARGET_PUBLIC_API" [Id "TARGET_DLL_EXPORT"];
    Else_;
      Define "TARGET_PUBLIC_API" [Id "TARGET_DLL_IMPORT"];
    Endif;
    Text [Id "TARGET_PUBLIC_API"; Id "int"; Id "target"; P "("; P ")"; P ";"];
    Text [Id "int"; Id "target"; P "("; P ")"; P "{"];
    Text [Id "int"; Id "b"; P "="; Id "bar"; P "("; P ")"; P ";"];
    Text [Id "assert"; P "("; Id "b"; P "=="; Num 456; P ")"; P ";"];
    Text [Id "return"; Num 789; P ";"];
    Text [P "}"] ].

(** The standard header [<assert.h>] belongs to the C library, not to the
    repository.  C11 7.2 fixes what matters here: each inclusion defines
    [assert] anew according to whether [NDEBUG] is defined at that point,
    as [((void)0)] if it is, and otherwise as a test of the expression that
    aborts the program when it compares equal to zero.  The diagnostic the
    failing test writes is left out. *)
Definition assert_h : list line :=
  [ Undef "assert";
    Ifdef "NDEBUG";
      DefineFn "assert" ["ignore"]
        [P "("; P "("; Id "void"; P ")"; Num 0; P ")"];
    Else_;
      DefineFn "assert" ["expr"]
        [P "("; P "("; Id "expr"; P ")"; P "?"; P "("; Id "void"; P ")"; Num 0;
         P ":"; Id "abort"; P "("; P ")"; P ")"];
    Endif ].

(** The headers the include path of the fixtures resolves. *)
Definition headers : gmap string (list line) :=
  {[ "assert.h" := assert_h; "bar/bar.h" := bar_h; "foo/foo.h" := foo_h ]}.

(** ** Build configurations *)

Inductive lib := Bar | Foo | Target.

#[global] Instance lib_eq_dec : EqDecision lib.
Proof. solve_decision. Defined.

(** The macros one compilation may find defined before its first line:
    [_WIN32] by the compiler, the others by the build system. *)
Record config := Config {
  windows : bool;          (* _WIN32 *)
  ndebug : bool;           (* NDEBUG *)
  bar_static : bool;       (* BAR_STATIC *)
  bar_build : bool;        (* BAR_BUILD *)
  foo_static : bool;       (* FOO_STATIC *)
  foo_build : bool;        (* FOO_BUILD *)
  target_static : bool;    (* TARGET_STATIC *)
  target_build : bool      (* TARGET_BUILD *)
}.

Definition is_static (c : config) (L : lib) : bool :=
  match L with
  | Bar => bar_static c
  | Foo => foo_static c
  | Target => target_static c
  end.

Definition is_owner (c : config) (L : lib) : bool :=
  match L with
  | Bar => bar_build c
  | Foo => foo_build c
  | Target => target_build c
  end.

Definition flag (on : bool) (name : string) : list string :=
  if on then [name] else [].

Definition command_line (c : config) : list string :=
  flag (windows c) "_WIN32" ++ flag (ndebug c) "NDEBUG"
  ++ flag (bar_static c) "BAR_STATIC" ++ flag (bar_build c) "BAR_BUILD"
  ++ flag (foo_static c) "FOO_STATIC" ++ flag (foo_build c) "FOO_BUILD"
  ++ flag (target_static c) "TARGET_STATIC"
  ++ flag (target_build c) "TARGET_BUILD".

(** A macro defined on the command line without a value stands for [1]. *)
Definition predefined (c : config) : gmap string macro :=
  list_to_map ((λ name, (name, ObjectLike [Num 1])) <$> command_line c).

Definition preprocess (c : config) (ls : list line) : result state :=
  run include_depth headers ls (State (predefined c) []).

(** The prefix of a library's macros and the file that defines them. *)
Definition prefix (L : lib) : string :=
  match L with Bar => "BAR" | Foo => "FOO" | Target => "TARGET" end.

Definition source (L : lib) : list line :=
  match L with Bar => bar_h | Foo => foo_h | Target => target_c end.

(** What a macro stands for once a file has been read: the replacement of
    its name, which is what a declaration that uses it gets. *)
Definition expansion_of (m : string) (st : state) : result (list token) :=
  if defined m st then expand (macros st) [Id m] else Err UnknownDefinition.

Definition macro_after (L : lib) (suffix : string) (c : config)
    : result (list token) :=
  st ← preprocess c (source L);
  expansion_of (prefix L +:+ suffix) st.

Definition public_api (L : lib) (c : config) : result (list token) :=
  macro_after L "_PUBLIC_API" c.

Definition dll_export (L : lib) (c : config) : result (list token) :=
  macro_after L "_DLL_EXPORT" c.

Definition dll_import (L : lib) (c : config) : result (list token) :=
  macro_after L "_DLL_IMPORT" c.

(** How often the function [symbol] is named in the text of a unit. *)
Definition mentions (symbol : string) (out : list token) : nat :=
  length (filter (λ t, t = Id symbol) out).

(** A translation unit that includes the header [h] [n] times in a row. *)
Definition including (n : nat) (h : string) : list line :=
  replicate n (Include h).

(** A guarded header without the three lines of its guard. *)
Definition strip_guard (ls : list line) : list line :=
  removelast (drop 2 ls).

End Cpp.

(** ** The visibility attribute as the specification tabulates it *)

Module Spec.
Import Cpp.

Definition export_attribute (windows_style : bool) : list token :=
  if windows_style then declspec "dllexport" else gnu_visibility_default.

Definition import_attribute (windows_style : bool) : list token :=
  if windows_style then declspec "dllimport" else gnu_visibility_default.

(** Static linkage: no attribute.  Dynamic linkage on a Windows-style
    platform: the export attribute for the owning build, the import
    attribute for a consuming build.  Dynamic linkage elsewhere: default
    visibility in both roles. *)
Definition attribute (windows_style static owning : bool) : list token :=
  if static then []
  else if windows_style then
    if owning then declspec "dllexport" else declspec "dllimport"
  else gnu_visibility_default.

End Spec.

(** ** The function of [target.c] and the process it runs in *)

Module Run.
Import Cpp.

(** How the [assert] of [target] was compiled. *)
Inductive assert_mode := Checked | Ignored.

(** The definition of [target] as the compiler receives it, around the
    replacement of its [assert(b == 456)]. *)
Definition target_definition (assertion : list token) : list token :=
  [Id "int"; Id "target"; P "("; P ")"; P "{";
   Id "int"; Id "b"; P "="; Id "bar"; P "("; P ")"; P ";"]
  ++ assertion
  ++ [P ";"; Id "return"; Num 789; P ";"; P "}"].

Definition checked_assertion : list token :=
  [P "("; P "("; Id "b"; P "=="; Num 456; P ")"; P "?";
   P "("; Id "void"; P ")"; Num 0; P ":"; Id "abort"; P "("; P ")"; P ")"].

Definition ignored_assertion : list token :=
  [P "("; P "("; Id "void"; P ")"; Num 0; P ")"].

Definition ends_with (out def : list token) : bool :=
  bool_decide (drop (length out - length def) out = def).

Definition assert_mode_of (out : list token) : result assert_mode :=
  if ends_with out (target_definition checked_assertion) then Ok Checked
  else if ends_with out (target_definition ignored_assertion) then Ok Ignored
  else Err UnknownDefinition.

Definition compile_unit (c : config) (ls : list line) : result assert_mode :=
  st ← preprocess c ls;
  assert_mode_of (output st).

Definition compile_target (c : config) : result assert_mode :=
  compile_unit c target_c.

(** The declaration [int f();] with an attribute in front. *)
Definition declaration (attr : list token) (f : string) : list token :=
  attr ++ [Id "int"; Id f; P "("; P ")"; P ";"].

(** What the build system decides for a whole build: the platform, whether
    [NDEBUG] is defined, and which libraries are static.  The unit of a
    library is compiled with that library's [<LIB>_BUILD] defined and the
    others' undefined. *)
Record build := Build {
  on_windows : bool;
  with_ndebug : bool;
  static : lib → bool
}.

Definition unit_config (b : build) (L : lib) : config :=
  Config (on_windows b) (with_ndebug b)
    (static b Bar) (bool_decide (L = Bar))
    (static b Foo) (bool_decide (L = Foo))
    (static b Target) (bool_decide (L = Target)).

(** Scenario A of the specification: every library dynamic. *)
Definition scenario_A (win nd : bool) : build := Build win nd (λ _, false).

(** Scenario C: every [*_STATIC] defined. *)
Definition scenario_C (win nd : bool) : build := Build win nd (λ _, true).

Section Process.

(** The memory of the process.  The sources declare no object of static
    storage, so what is written here only passes it on. *)
Variable world : Type.

Inductive outcome (A : Type) :=
  | Returns (a : A) (w : world)
  | Aborts
  | Unresolved (symbol : string).
Arguments Returns {A} a w.
Arguments Aborts {A}.
Arguments Unresolved {A} symbol.

(** A C function without parameters returning [A]; an [int] is read as the
    integer it holds, the sources do no arithmetic on it. *)
Definition comp (A : Type) : Type := world → outcome A.

#[local] Instance comp_ret : MRet comp := fun _ a w => Returns a w.
#[local] Instance comp_bind : MBind comp := fun _ _ f m w =>
  match m w with
  | Returns a w' => f a w'
  | Aborts => Aborts
  | Unresolved s => Unresolved s
  end.

Definition abort {A : Type} : comp A := fun _ => Aborts.

Definition unresolved {A : Type} (symbol : string) : comp A :=
  fun _ => Unresolved symbol.

(** [assert(e)] under either definition of the macro. *)
Definition c_assert (mode : assert_mode) (e : bool) : comp unit :=
  match mode with
  | Checked => if e then mret () else abort
  | Ignored => mret ()
  end.

(** [int target() { int b = bar(); assert(b == 456); return 789; }],
    given how [assert] was compiled and the [bar] the linker resolved. *)
Definition target (mode : assert_mode) (bar : comp Z) : comp Z :=
  b ← bar;
  c_assert mode (b =? 456);;
  mret 789.

(** [target()] of one compilation of [target.c], calling a given [bar]. *)
Definition call_target (c : config) (bar : comp Z) (w : world)
    : result (outcome Z) :=
  mode ← compile_target c;
  Ok (target mode bar w).

(** The libraries loaded into a process. *)
Record program := Program {
  has_bar : bool;
  has_foo : bool;
  target_unit : option assert_mode
}.

(** Building the libraries [libs]: every header must preprocess and
    [target.c] must compile, each in the configuration of its unit. *)
Definition link (b : build) (libs : list lib) : result program :=
  _ ← (if decide (Bar ∈ libs) then public_api Bar (unit_config b Bar)
       else Ok []);
  _ ← (if decide (Foo ∈ libs) then public_api Foo (unit_config b Foo)
       else Ok []);
  t ← (if decide (Target ∈ libs)
       then Some <$> compile_target (unit_config b Target)
       else Ok None);
  Ok (Program (bool_decide (Bar ∈ libs)) (bool_decide (Foo ∈ libs)) t).

Section Linked.

(** The definitions of [bar] and [foo] the libraries were built from. *)
Variables bar_def foo_def : comp Z.

(** The loader resolves symbols by name. *)
Definition resolve_bar (p : program) : comp Z :=
  if has_bar p then bar_def else unresolved "bar".

Definition call (p : program) (L : lib) : comp Z :=
  match L with
  | Bar => resolve_bar p
  | Foo => if has_foo p then foo_def else unresolved "foo"
  | Target =>
      match target_unit p with
      | Some mode => target mode (resolve_bar p)
      | None => unresolved "target"
      end
  end.

Definition exec (b : build) (libs : list lib) (L : lib) (w : world)
    : result (outcome Z) :=
  p ← link b libs;
  Ok (call p L w).

End Linked.

(** Modelled from the spec: the definition of [bar] ([bar.c]) is not among
    the sources, only its declaration in [bar.h] and its caller are.  The
    specification has [bar()] return the fixed value 456. *)
Definition bar : comp Z := mret 456.

(** Modelled from the spec: the definition of [foo] ([foo.c]) is not among
    the sources, only its declaration in [foo.h] is.  The specification has
    [foo()] return a fixed value of its own, which it does not give, and
    has it not depend on [bar]. *)
Definition foo (sentinel : Z) : comp Z := mret sentinel.

End Process.

Arguments Returns {world A} a w.
Arguments Aborts {world A}.
Arguments Unresolved {world A} symbol.
Arguments target {world} mode bar w.
Arguments call_target {world} c bar w.
Arguments call {world} bar_def foo_def p L w.
Arguments exec {world} bar_def foo_def b libs L w.
Arguments bar {world} w.
Arguments foo {world} sentinel w.

End Run.

(** ** What a file does to the state of a translation unit *)

Module Effects.
Import Cpp.

(** The two guarded headers. *)
Inductive header := BarH | FooH.

Definition owner (h : header) : lib :=
  match h with BarH => Bar | FooH => Foo end.

Definition lines (h : header) : list line :=
  match h with BarH => bar_h | FooH => foo_h end.

Definition path (h : header) : string :=
  match h with BarH => "bar/bar.h" | FooH => "foo/foo.h" end.

Definition guard (h : header) : string :=
  match h with BarH => "XMAKERS_BAR_H" | FooH => "XMAKERS_FOO_H" end.

Definition symbol (L : lib) : string :=
  match L with Bar => "bar" | Foo => "foo" | Target => "target" end.

(** The line [<LIB>_PUBLIC_API int f();] as written. *)
Definition prototype (L : lib) : list token :=
  [Id (prefix L +:+ "_PUBLIC_API"); Id "int"; Id (symbol L);
   P "("; P ")"; P ";"].

(** The three macros the visibility block of [L] defines, in the order it
    defines them, by what the state has defined when the block is read. *)
Definition visibility_macros (L : lib) (st : state) : list (string * macro) :=
  let attr (what : string) :=
    if defined (prefix L +:+ "_STATIC") st then []
    else if defined "_WIN32" st then declspec what
    else gnu_visibility_default in
  [ (prefix L +:+ "_DLL_EXPORT", ObjectLike (attr "dllexport"));
    (prefix L +:+ "_DLL_IMPORT", ObjectLike (attr "dllimport"));
    (prefix L +:+ "_PUBLIC_API",
     ObjectLike [Id (prefix L +:+ (if defined (prefix L +:+ "_BUILD") st
                                   then "_DLL_EXPORT" else "_DLL_IMPORT"))]) ].

(** The four macros a guarded header defines. *)
Definition header_macros (h : header) (st : state) : list (string * macro) :=
  (guard h, ObjectLike []) :: visibility_macros (owner h) st.

(** The table with the definitions [ds] entered one after the other. *)
Definition enter (ds : list (string * macro)) (M : gmap string macro)
    : gmap string macro :=
  foldl (λ M d, <[d.1 := d.2]> M) M ds.

(** The declaration of the function of [L] with the attribute the table
    of the specification gives for what [st] defines. *)
Definition declared (L : lib) (st : state) : list token :=
  Run.declaration
    (Spec.attribute (defined "_WIN32" st)
       (defined (prefix L +:+ "_STATIC") st)
       (defined (prefix L +:+ "_BUILD") st))
    (symbol L).

(** None of the names is defined. *)
Definition fresh (names : list string) (st : state) : Prop :=
  Forall (λ m, macros st !! m = None) names.

Definition names_of (L : lib) : list string :=
  [prefix L +:+ "_DLL_EXPORT"; prefix L +:+ "_DLL_IMPORT";
   prefix L +:+ "_PUBLIC_API"].

(** The identifiers of the attributes and of the declaration. *)
Definition words (L : lib) : list string :=
  ["__declspec"; "dllexport"; "dllimport"; "gnu"; "visibility"; "int";
   symbol L].

(** The names a header defines or writes. *)
Definition header_names (h : header) : list string :=
  guard h :: names_of (owner h) ++ words (owner h).

(** A unit that includes both headers, [first] first. *)
Definition both_headers (first : header) : list line :=
  match first with
  | BarH => [Include "bar/bar.h"; Include "foo/foo.h"]
  | FooH => [Include "foo/foo.h"; Include "bar/bar.h"]
  end.



(** Whether a line, if it changes the table at all, defines one of [K]. *)
Definition defines_within (K : list string) (l : line) : bool :=
  match l with
  | Define m _ | DefineFn m _ _ => bool_decide (m ∈ K)
  | Undef _ | Include _ => false
  | Ifdef _ | Ifndef _ | Else_ | Endif | Text _ => true
  end.

Definition stays_within (K : list string) (ls : list line) : bool :=
  forallb (defines_within K) ls.

(** The configuration with the build role of [L] set. *)
Definition set_owner (L : lib) (b : bool) (c : config) : config :=
  match L with
  | Bar =>
      Config (windows c) (ndebug c) (bar_static c) b (foo_static c)
        (foo_build c) (target_static c) (target_build c)
  | Foo =>
      Config (windows c) (ndebug c) (bar_static c) (bar_build c)
        (foo_static c) b (target_static c) (target_build c)
  | Target =>
      Config (windows c) (ndebug c) (bar_static c) (bar_build c)
        (foo_static c) (foo_build c) (target_static c) b
  end.

Definition set_windows (b : bool) (c : config) : config :=
  Config b (ndebug c) (bar_static c) (bar_build c) (foo_static c)
    (foo_build c) (target_static c) (target_build c).

End Effects.

Import Cpp.

(** * Properties *)

(** ** The preprocessor *)

(** *** More budget gives the same result *)

Ltac result_cases H :=
  repeat match type of H with
    | (_ <$> ?e) = Ok _ =>
        let E := fresh "E" in
        destruct e eqn:E; cbn in H; [|discriminate H]
    | (?e ≫= _) = Ok _ =>
        let E := fresh "E" in
        destruct e eqn:E; cbn in H; [|discriminate H]
    end.

Lemma mapM_mono {A B : Type} (f g : A → result B) (l : list A) (r : list B) :
  (∀ x y, f x = Ok y → g x = Ok y) →
  mapM f l = Ok r → mapM g l = Ok r.
Proof.
  intros Hfg. revert r.
  induction l as [|x l IH]; intros r H; cbn in *; [exact H|].
  result_cases H. rewrite (Hfg _ _ E), (IH _ eq_refl). exact H.
Qed.

Lemma scan_mono rec1 rec2 M :
  (∀ hide ts r, rec1 hide ts = Ok r → rec2 hide ts = Ok r) →
  ∀ ts hide skip r,
    scan rec1 M hide ts skip = Ok r → scan rec2 M hide ts skip = Ok r.
Proof.
  intros Hrec.
  induction ts as [|t rest IH]; intros hide skip r H; cbn in *; [exact H|].
  destruct skip as [|k]; [|exact (IH _ _ _ H)].
  destruct t as [x| | |];
    try (result_cases H; rewrite (IH _ _ _ E); exact H).
  destruct (decide (x ∈ hide));
    [result_cases H; rewrite (IH _ _ _ E); exact H|].
  destruct (M !! x) as [[body|ps body]|];
    [ | |result_cases H; rewrite (IH _ _ _ E); exact H].
  - result_cases H. rewrite (Hrec _ _ _ E), (IH _ _ _ E0). exact H.
  - destruct (decide (head rest = Some (P "(")));
      [|result_cases H; rewrite (IH _ _ _ E); exact H].
    destruct (collect_args _ _ _ _ _) as [[args used]|]; [|discriminate H].
    destruct (arity_ok ps args); [|discriminate H].
    result_cases H.
    rewrite (mapM_mono _ _ _ _ (Hrec hide) E). cbn.
    rewrite (Hrec _ _ _ E0), (IH _ _ _ E1). exact H.
Qed.

Lemma expand_at_S d M hide ts r :
  expand_at d M hide ts = Ok r → expand_at (S d) M hide ts = Ok r.
Proof.
  revert hide ts r. induction d as [|d IH]; intros hide ts r H;
    [discriminate H|].
  exact (scan_mono _ _ M IH ts hide O r H).
Qed.

Lemma expand_at_le d d' M hide ts r :
  (d ≤ d')%nat → expand_at d M hide ts = Ok r → expand_at d' M hide ts = Ok r.
Proof. induction 1; [trivial|]. intros R. apply expand_at_S. auto. Qed.

Lemma run_lines_mono inc1 inc2 H :
  (∀ ls st st', inc1 ls st = Ok st' → inc2 ls st = Ok st') →
  ∀ ls conds st st',
    run_lines inc1 H ls conds st = Ok st' →
    run_lines inc2 H ls conds st = Ok st'.
Proof.
  intros Hinc.
  induction ls as [|l rest IH]; intros conds st st' R; cbn in *; [exact R|].
  destruct l; try solve [apply IH; exact R].
  - destruct conds as [|c cs]; [discriminate R|].
    destruct (in_else c); [discriminate R | apply IH; exact R].
  - destruct conds as [|c cs]; [discriminate R | apply IH; exact R].
  - destruct (live conds); [|apply IH; exact R].
    result_cases R. apply IH. exact R.
  - destruct (live conds); [|apply IH; exact R].
    result_cases R. apply IH. exact R.
  - destruct (live conds); apply IH; exact R.
  - destruct (live conds); [|apply IH; exact R].
    destruct (H !! h) as [body|]; [|discriminate R].
    result_cases R. rewrite (Hinc _ _ _ E). apply IH. exact R.
  - destruct (live conds); [|apply IH; exact R].
    result_cases R. apply IH. exact R.
Qed.

Lemma run_S d H ls st st' :
  run d H ls st = Ok st' → run (S d) H ls st = Ok st'.
Proof.
  revert ls st st'. induction d as [|d IH]; intros ls st st' R;
    [discriminate R|].
  exact (run_lines_mono _ _ H IH ls [] st st' R).
Qed.

(** A deeper limit on the nesting of inclusions does not change what a
    file preprocesses to. *)
Lemma run_le d d' H ls st st' :
  (d ≤ d')%nat → run d H ls st = Ok st' → run d' H ls st = Ok st'.
Proof. intros Hle. induction Hle; [trivial|]. intros R. apply run_S. auto. Qed.

(** *** Replacement terminates on object-like macros *)

Lemma hidden_names_bounded (M : gmap string macro) (hide : list string) :
  NoDup hide → (∀ x, x ∈ hide → is_Some (M !! x)) →
  (length hide ≤ size M)%nat.
Proof.
  intros Hnd Hin.
  rewrite <- (size_list_to_set (C:=gset string) hide Hnd), <- size_dom.
  apply subseteq_size. intros x Hx. apply elem_of_dom, Hin.
  apply elem_of_list_to_set in Hx. exact Hx.
Qed.

Lemma scan_total rec M hide :
  object_like_only M →
  (∀ x body, x ∉ hide → M !! x = Some (ObjectLike body) →
     ∃ r, rec (x :: hide) body = Ok r) →
  ∀ ts skip, ∃ r, scan rec M hide ts skip = Ok r.
Proof.
  intros Hobj Hrec.
  induction ts as [|t rest IH]; intros skip; cbn; [eauto|].
  destruct skip as [|k]; [|apply IH].
  destruct (IH O) as [r Hr].
  destruct t as [x| | |]; try solve [rewrite Hr; cbn; eauto].
  destruct (decide (x ∈ hide)); [rewrite Hr; cbn; eauto|].
  destruct (M !! x) as [m|] eqn:Hx; [|rewrite Hr; cbn; eauto].
  destruct (Hobj _ _ Hx) as [body ->].
  destruct (Hrec x body) as [b Hb]; [assumption..|].
  rewrite Hb, Hr. cbn. eauto.
Qed.

Lemma expand_at_total M :
  object_like_only M →
  ∀ d hide ts,
    NoDup hide → (∀ x, x ∈ hide → is_Some (M !! x)) →
    (size M < d + length hide)%nat →
    ∃ r, expand_at d M hide ts = Ok r.
Proof.
  intros Hobj. induction d as [|d IH]; intros hide ts Hnd Hin Hlt.
  - pose proof (hidden_names_bounded M hide Hnd Hin). cbn in Hlt. lia.
  - cbn. apply scan_total; [exact Hobj|].
    intros x body Hx Hm. apply IH.
    + apply NoDup_cons. split; assumption.
    + intros y [->|Hy]%elem_of_cons; [rewrite Hm; eauto | auto].
    + cbn. lia.
Qed.

(** With object-like macros only, as the visibility macros are, replacing
    the macros of any text succeeds. *)
Lemma expand_total M ts :
  object_like_only M → ∃ r, expand M ts = Ok r.
Proof.
  intros Hobj. unfold expand.
  apply expand_at_total; [exact Hobj | constructor | |cbn; lia].
  intros x Hx. inversion Hx.
Qed.

(** *** Inclusion *)

Lemma run_include d H h body rest st :
  H !! h = Some body →
  run (S d) H (Include h :: rest) st
  = st' ← run d H body st; run (S d) H rest st'.
Proof. intros E. simpl. rewrite E. reflexivity. Qed.

Lemma headers_bar : headers !! "bar/bar.h" = Some bar_h.
Proof. vm_compute. reflexivity. Qed.

Lemma headers_foo : headers !! "foo/foo.h" = Some foo_h.
Proof. vm_compute. reflexivity. Qed.

(** A header whose guard is already defined leaves the state as it is. *)
Lemma bar_h_guarded d st :
  defined "XMAKERS_BAR_H" st = true → run (S d) headers bar_h st = Ok st.
Proof. intros E. unfold bar_h. simpl. rewrite E. reflexivity. Qed.

Lemma foo_h_guarded d st :
  defined "XMAKERS_FOO_H" st = true → run (S d) headers foo_h st = Ok st.
Proof. intros E. unfold foo_h. simpl. rewrite E. reflexivity. Qed.

Section Guarded.

Variables (h guard : string) (body : list line).
Hypothesis Hh : headers !! h = Some body.
Hypothesis Hguard :
  ∀ d st, defined guard st = true → run (S d) headers body st = Ok st.

Lemma including_guarded n st :
  defined guard st = true →
  run include_depth headers (including n h) st = Ok st.
Proof.
  intros Hst. induction n as [|n IH]; [reflexivity|].
  unfold including, include_depth in *. cbn [replicate].
  rewrite (run_include _ _ _ _ _ _ Hh), (Hguard _ _ Hst). exact IH.
Qed.

Lemma including_again c n st :
  preprocess c (including 1 h) = Ok st →
  defined guard st = true →
  preprocess c (including (S n) h) = Ok st.
Proof.
  unfold preprocess, including, include_depth. cbn [replicate].
  rewrite !(run_include _ _ _ _ _ _ Hh).
  destruct (run _ headers body _) as [st1|]; [|discriminate].
  cbn. intros [= ->] Hst. exact (including_guarded n st Hst).
Qed.

End Guarded.

Lemma bar_h_once_check (c : config) :
  match preprocess c (including 1 "bar/bar.h") with
  | Ok st =>
      defined "XMAKERS_BAR_H" st
      && bool_decide (mentions "bar" (output st) = 1%nat)
  | Err _ => false
  end = true.
Proof. destruct c as [[] [] [] [] [] [] [] []]; vm_compute; reflexivity. Qed.

Lemma foo_h_once_check (c : config) :
  match preprocess c (including 1 "foo/foo.h") with
  | Ok st =>
      defined "XMAKERS_FOO_H" st
      && bool_decide (mentions "foo" (output st) = 1%nat)
  | Err _ => false
  end = true.
Proof. destruct c as [[] [] [] [] [] [] [] []]; vm_compute; reflexivity. Qed.

Lemma bar_h_once (c : config) :
  ∃ st, preprocess c (including 1 "bar/bar.h") = Ok st
        ∧ defined "XMAKERS_BAR_H" st = true
        ∧ mentions "bar" (output st) = 1%nat.
Proof.
  pose proof (bar_h_once_check c) as H.
  destruct (preprocess c _) as [st|]; [|discriminate].
  apply andb_prop in H as [Hg Hm]. apply bool_decide_eq_true in Hm. eauto.
Qed.

Lemma foo_h_once (c : config) :
  ∃ st, preprocess c (including 1 "foo/foo.h") = Ok st
        ∧ defined "XMAKERS_FOO_H" st = true
        ∧ mentions "foo" (output st) = 1%nat.
Proof.
  pose proof (foo_h_once_check c) as H.
  destruct (preprocess c _) as [st|]; [|discriminate].
  apply andb_prop in H as [Hg Hm]. apply bool_decide_eq_true in Hm. eauto.
Qed.

(** Without its guard, [bar.h] included twice declares [bar] twice. *)
Lemma bar_h_unguarded_twice (c : config) :
  (λ st, mentions "bar" (output st))
  <$> run include_depth (<["bar/bar.h" := strip_guard bar_h]> headers)
        (including 2 "bar/bar.h") (State (predefined c) [])
  = Ok 2%nat.
Proof. destruct c as [[] [] [] [] [] [] [] []]; vm_compute; reflexivity. Qed.

(** *** The visibility macros *)

(** The three macros of a library after its file has been read. *)
Lemma macros_of_library (L : lib) (c : config) :
  dll_export L c
  = Ok (if is_static c L then [] else Spec.export_attribute (windows c))
  ∧ dll_import L c
    = Ok (if is_static c L then [] else Spec.import_attribute (windows c))
  ∧ public_api L c = (if is_owner c L then dll_export L c else dll_import L c).
Proof.
  destruct L, c as [[] [] [] [] [] [] [] []];
    (split; [|split]; vm_compute; reflexivity).
Qed.

(** C1: for every library and every combination of platform family,
    linkage mode and build role, with the remaining macros of the command
    line set either way, [<LIB>_PUBLIC_API] stands for the attribute the
    table of the specification gives: none when [<LIB>_STATIC] is defined,
    [__declspec(dllexport)] and [__declspec(dllimport)] for the owning and
    the consuming Windows-style dynamic build, and
    [[[gnu::visibility("default")]]] for both roles elsewhere. *)
Theorem public_api_matches_table (L : lib) (c : config) :
  public_api L c
  = Ok (Spec.attribute (windows c) (is_static c L) (is_owner c L)).
Proof.
  destruct (macros_of_library L c) as (He & Hi & ->).
  unfold Spec.attribute, Spec.export_attribute, Spec.import_attribute in *.
  destruct (is_owner c L); [rewrite He | rewrite Hi];
    destruct (is_static c L), (windows c); reflexivity.
Qed.

(** C7: on an attribute-based platform with dynamic linkage,
    [<LIB>_DLL_EXPORT] and [<LIB>_DLL_IMPORT] both stand for the
    default-visibility attribute, for every library, in the owning build
    [c] as in a consuming build [c'], and so both builds give the
    declaration the same attribute. *)
Theorem export_import_symmetric (L : lib) (c c' : config) :
  windows c = false → is_static c L = false → is_owner c L = true →
  windows c' = false → is_static c' L = false → is_owner c' L = false →
  dll_export L c = Ok gnu_visibility_default
  ∧ dll_import L c = Ok gnu_visibility_default
  ∧ dll_export L c' = dll_export L c
  ∧ dll_import L c' = dll_import L c
  ∧ public_api L c = dll_export L c
  ∧ public_api L c' = dll_import L c'
  ∧ public_api L c = public_api L c'.
Proof.
  intros Hw Hs Ho Hw' Hs' Ho'.
  destruct (macros_of_library L c) as (He & Hi & Hp).
  destruct (macros_of_library L c') as (He' & Hi' & Hp').
  rewrite Hw, Hs in He, Hi. rewrite Hw', Hs' in He', Hi'.
  rewrite Ho in Hp. rewrite Ho' in Hp'.
  change (dll_export L c = Ok gnu_visibility_default) in He.
  change (dll_import L c = Ok gnu_visibility_default) in Hi.
  change (dll_export L c' = Ok gnu_visibility_default) in He'.
  change (dll_import L c' = Ok gnu_visibility_default) in Hi'.
  rewrite Hp, Hp', He, Hi, He', Hi'. repeat split; reflexivity.
Qed.

Lemma export_import_symmetric_witness :
  public_api Foo (Config false false false false false true false false)
  = public_api Foo (Config false false false false false false false false).
Proof.
  exact (proj2 (proj2 (proj2 (proj2 (proj2 (proj2
    (export_import_symmetric Foo
       (Config false false false false false true false false)
       (Config false false false false false false false false)
       eq_refl eq_refl eq_refl eq_refl eq_refl eq_refl))))))).
Defined.

(** C8: the computation of the visibility macro cannot fail.  For every
    library and every configuration the file preprocesses without an error,
    [<LIB>_PUBLIC_API] is defined afterwards, and it stands for one member
    of the set of the platform's export attribute, its import attribute and
    the empty attribute. *)
Theorem public_api_total (L : lib) (c : config) :
  ∃ st a,
    preprocess c (source L) = Ok st
    ∧ is_Some (macros st !! (prefix L +:+ "_PUBLIC_API"))
    ∧ (∀ a', public_api L c = Ok a' ↔ a' = a)
    ∧ a ∈ [Spec.export_attribute (windows c);
           Spec.import_attribute (windows c); []].
Proof.
  destruct (macros_of_library L c) as (He & Hi & Hp).
  assert (∃ a, public_api L c = Ok a
               ∧ a ∈ [Spec.export_attribute (windows c);
                      Spec.import_attribute (windows c); []]) as (a & Ha & Hin).
  { rewrite Hp. destruct (is_owner c L); [rewrite He | rewrite Hi];
      (eexists; split; [reflexivity|]);
      destruct (is_static c L); set_solver. }
  pose proof Ha as Hst. unfold public_api, macro_after in Hst.
  destruct (preprocess c (source L)) as [st|e]; [|discriminate].
  exists st, a. split; [reflexivity|]. split.
  - cbn in Hst. unfold expansion_of in Hst.
    destruct (defined _ st) eqn:Hd; [|discriminate].
    unfold defined in Hd. exact (proj1 (bool_decide_eq_true _) Hd).
  - split; [|exact Hin]. intros a'. rewrite Ha. split; congruence.
Qed.

(** C10: including [bar/bar.h] or [foo/foo.h] once more, any number of
    times, changes nothing: the state after [S n] inclusions in a row is the
    state after one, macros and text alike, and the text declares the
    function once. *)
Theorem include_guard_idempotent (c : config) (n : nat) :
  (∃ st, preprocess c (including 1 "bar/bar.h") = Ok st
         ∧ preprocess c (including (S n) "bar/bar.h") = Ok st
         ∧ mentions "bar" (output st) = 1%nat)
  ∧ (∃ st, preprocess c (including 1 "foo/foo.h") = Ok st
           ∧ preprocess c (including (S n) "foo/foo.h") = Ok st
           ∧ mentions "foo" (output st) = 1%nat).
Proof.
  split.
  - destruct (bar_h_once c) as (st & Hrun & Hg & Hm). exists st.
    split; [exact Hrun|]. split; [|exact Hm].
    exact (including_again _ _ _ headers_bar bar_h_guarded c n st Hrun Hg).
  - destruct (foo_h_once c) as (st & Hrun & Hg & Hm). exists st.
    split; [exact Hrun|]. split; [|exact Hm].
    exact (including_again _ _ _ headers_foo foo_h_guarded c n st Hrun Hg).
Qed.

(** ** The process *)

Import Run.

Lemma compile_target_checked (c : config) : compile_target c = Ok Checked.
Proof. destruct c as [[] [] [] [] [] [] [] []]; vm_compute; reflexivity. Qed.

(** Without its first line, [target.c] built with [NDEBUG] defined would
    lose the assertion. *)
Lemma ndebug_left_defined (c : config) :
  compile_unit c (tail target_c) = Ok (if ndebug c then Ignored else Checked).
Proof. destruct c as [[] [] [] [] [] [] [] []]; vm_compute; reflexivity. Qed.

Lemma public_api_ok (L : lib) (c : config) : ∃ a, public_api L c = Ok a.
Proof.
  destruct (macros_of_library L c) as (He & Hi & ->).
  destruct (is_owner c L); eauto.
Qed.

Lemma link_result (b : build) (libs : list lib) :
  link b libs
  = Ok (Program (bool_decide (Bar ∈ libs)) (bool_decide (Foo ∈ libs))
          (if decide (Target ∈ libs) then Some Checked else None)).
Proof.
  unfold link.
  destruct (public_api_ok Bar (unit_config b Bar)) as [a ->].
  destruct (public_api_ok Foo (unit_config b Foo)) as [a' ->].
  rewrite compile_target_checked.
  repeat case_decide; reflexivity.
Qed.

Lemma exec_result {world : Type} (bar_def foo_def : comp world Z) (b : build)
    (libs : list lib) (L : lib) (w : world) :
  exec bar_def foo_def b libs L w
  = Ok (call bar_def foo_def
          (Program (bool_decide (Bar ∈ libs)) (bool_decide (Foo ∈ libs))
             (if decide (Target ∈ libs) then Some Checked else None))
          L w).
Proof. unfold exec. rewrite link_result. reflexivity. Qed.

Lemma target_checked {world : Type} (bar : comp world Z) (b : Z)
    (w w' : world) :
  bar w = Returns b w' →
  target Checked bar w = if b =? 456 then Returns 789 w' else Aborts.
Proof.
  intros Hb. unfold target, mbind, comp_bind. rewrite Hb.
  unfold c_assert. destruct (b =? 456); reflexivity.
Qed.

Lemma declarations (c : config) :
  output <$> preprocess c bar_h
  = Ok (declaration
          (Spec.attribute (windows c) (bar_static c) (bar_build c)) "bar")
  ∧ output <$> preprocess c foo_h
    = Ok (declaration
            (Spec.attribute (windows c) (foo_static c) (foo_build c)) "foo").
Proof.
  destruct c as [[] [] [] [] [] [] [] []]; split; vm_compute; reflexivity.
Qed.

Lemma foo_not_mentioned (c : config) :
  mentions "foo" <$> (output <$> preprocess c bar_h) = Ok O
  ∧ mentions "foo" <$> (output <$> preprocess c target_c) = Ok O.
Proof.
  destruct c as [[] [] [] [] [] [] [] []]; split; vm_compute; reflexivity.
Qed.

(** C2: whatever value [b] the call of [bar()] inside [target()] returns,
    [target()] returns 789 exactly when [b] is 456, and when [b] is not 456
    the process aborts and [target()] returns nothing. *)
Theorem target_returns_iff_bar_456 (world : Type) (c : config)
    (bar : comp world Z) (b : Z) (w w' : world) :
  bar w = Returns b w' →
  (call_target c bar w = Ok (Returns 789 w') ↔ b = 456)
  ∧ (b ≠ 456 → call_target c bar w = Ok Aborts)
  ∧ (∀ v w'', call_target c bar w = Ok (Returns v w'') → v = 789 ∧ b = 456).
Proof.
  intros Hb. unfold call_target. rewrite compile_target_checked. cbn.
  rewrite (target_checked bar b w w' Hb).
  destruct (Z.eqb_spec b 456) as [->|Hne].
  - split; [split; reflexivity|]. split; [congruence|].
    intros v w'' [= <- _]. split; reflexivity.
  - split; [split; [discriminate | contradiction]|].
    split; [reflexivity | discriminate].
Qed.

Lemma target_returns_iff_bar_456_witness :
  let c := Config false true false false false false false true in
  call_target c (λ w : unit, Returns 456 w) () = Ok (Returns 789 ())
  ∧ call_target c (λ w : unit, Returns 457 w) () = Ok Aborts.
Proof.
  split.
  - exact (proj2 (proj1
      (target_returns_iff_bar_456 unit
         (Config false true false false false false false true)
         (λ w, Returns 456 w) 456 () () eq_refl)) eq_refl).
  - refine (proj1 (proj2
      (target_returns_iff_bar_456 unit
         (Config false true false false false false false true)
         (λ w, Returns 457 w) 457 () () eq_refl)) _).
    discriminate.
Defined.

(** C9: the assertion of [target()] is compiled in whether or not the build
    defines [NDEBUG], so a value other than 456 aborts the process in every
    configuration; it is the first line of [target.c], which undefines
    [NDEBUG] before [assert.h] is included, that keeps it: the lines after
    it alone compile to a [target()] without the check when [NDEBUG] is
    defined. *)
Theorem assertion_always_live (c : config) :
  compile_target c = Ok Checked
  ∧ (∀ (world : Type) (b : Z) (w : world),
       call_target c (λ w, Returns b w) w
       = Ok (if b =? 456 then Returns 789 w else Aborts))
  ∧ head target_c = Some (Undef "NDEBUG")
  ∧ compile_unit c (tail target_c)
    = Ok (if ndebug c then Ignored else Checked).
Proof.
  split; [apply compile_target_checked|].
  split; [|split; [reflexivity | apply ndebug_left_defined]].
  intros world b w. unfold call_target. rewrite compile_target_checked.
  exact (f_equal Ok (target_checked (λ w0, Returns b w0) b w w eq_refl)).
Qed.

(** C3: [bar()] returns 456 on every call, whatever the state of the
    process: called directly, called in any program that has [bar]
    whatever else it holds, and in any build that links [bar]; [bar.h]
    declares it as [int bar();] with the attribute of the configuration. *)
Theorem bar_returns_456 (world : Type) (foo_def : comp world Z) (w : world) :
  bar w = Returns 456 w
  ∧ (∀ has_foo tu, call bar foo_def (Program true has_foo tu) Bar w
                     = Returns 456 w)
  ∧ (∀ b others, exec bar foo_def b (Bar :: others) Bar w
                 = Ok (Returns 456 w))
  ∧ (∀ c, output <$> preprocess c bar_h
          = Ok (declaration (Spec.attribute (windows c) (bar_static c)
                               (bar_build c)) "bar")).
Proof.
  split; [reflexivity|]. split; [reflexivity|].
  split; [|intros c; exact (proj1 (declarations c))].
  intros b others. rewrite exec_result.
  rewrite (bool_decide_eq_true_2 (Bar ∈ Bar :: others)) by left.
  reflexivity.
Qed.

(** C5: [foo()] returns its sentinel on every call, whatever the state of
    the process, whether or not [bar] and [target] are linked with it and
    whatever [bar] does; neither [bar.h] nor [target.c] names [foo]. *)
Theorem foo_returns_sentinel (world : Type) (sentinel : Z)
    (bar_def : comp world Z) (w : world) :
  (∀ has_bar tu,
     call bar_def (foo sentinel) (Program has_bar true tu) Foo w
     = Returns sentinel w)
  ∧ (∀ b others, exec bar_def (foo sentinel) b (Foo :: others) Foo w
                 = Ok (Returns sentinel w))
  ∧ (∀ c, mentions "foo" <$> (output <$> preprocess c bar_h) = Ok O
          ∧ mentions "foo" <$> (output <$> preprocess c target_c) = Ok O).
Proof.
  split; [reflexivity|]. split; [|exact foo_not_mentioned].
  intros b others. rewrite exec_result.
  rewrite (bool_decide_eq_true_2 (Foo ∈ Foo :: others)) by left.
  reflexivity.
Qed.

(** C4: built with every [*_STATIC] defined, each function of a program
    returns what it returns in the dynamic build of scenario A, on either
    platform and whatever the definitions of [bar] and [foo] are; the
    function [target.c] compiles to is the same; and with a [bar] that
    returns 456, [target] returns 789 and [bar] 456 in both builds. *)
Theorem linkage_mode_transparent (world : Type) (bar_def foo_def : comp world Z)
    (win nd : bool) (w : world) :
  (∀ libs L, exec bar_def foo_def (scenario_C win nd) libs L w
             = exec bar_def foo_def (scenario_A win nd) libs L w)
  ∧ call_target (unit_config (scenario_C win nd) Target) bar_def w
    = call_target (unit_config (scenario_A win nd) Target) bar_def w
  ∧ (∀ s : lib → bool,
       exec (λ w, Returns 456 w) foo_def (Build win nd s) [Bar; Target] Target w
       = Ok (Returns 789 w)
       ∧ exec (λ w, Returns 456 w) foo_def (Build win nd s) [Bar; Target] Bar w
         = Ok (Returns 456 w)).
Proof.
  split; [intros libs L; rewrite !exec_result; reflexivity|].
  split; [unfold call_target; rewrite !compile_target_checked; reflexivity|].
  intros s. rewrite !exec_result. split; reflexivity.
Qed.

(** C6: the three functions keep no state.  If a call of one of them
    returns a value, it leaves the memory of the process as it found it,
    and every other call of it in that process, in whatever state, returns
    the same value. *)
Theorem calls_idempotent (world : Type) (sentinel : Z) (p : program)
    (L : lib) (w1 w1' w2 : world) (v : Z) :
  call bar (foo sentinel) p L w1 = Returns v w1' →
  w1' = w1 ∧ call bar (foo sentinel) p L w2 = Returns v w2.
Proof.
  intros H. destruct p as [hb hf tu]. destruct L; cbn in H |- *.
  - unfold resolve_bar in *. cbn in *. destruct hb; [|discriminate H].
    injection H as <- <-. split; reflexivity.
  - destruct hf; [|discriminate H]. injection H as <- <-. split; reflexivity.
  - destruct tu as [mode|]; [|discriminate H].
    unfold resolve_bar in *. cbn in *. destruct hb; [|discriminate H].
    destruct mode; injection H as <- <-; split; reflexivity.
Qed.

Lemma calls_idempotent_witness :
  () = ()
  ∧ call bar (foo 123) (Program true true (Some Checked)) Target ()
    = Returns 789 ().
Proof.
  exact (calls_idempotent unit 123 (Program true true (Some Checked)) Target
           () () () 789 eq_refl).
Defined.

(** ** Further properties of the sources *)

Import Effects.

(** *** One line at a time *)

Lemma defined_insert_ne k d m M o :
  k ≠ m → defined m (State (<[k:=d]> M) o) = defined m (State M o).
Proof.
  intros Hne. unfold defined. cbn [macros].
  rewrite lookup_insert_ne by exact Hne. reflexivity.
Qed.

Lemma defined_fresh m st : macros st !! m = None → defined m st = false.
Proof.
  intros E. unfold defined. rewrite E. apply bool_decide_eq_false.
  intros [x Hx]. discriminate Hx.
Qed.

Section Steps.

Variables (inc : list line → state → result state).
Variables (H : gmap string (list line)).

Lemma step_ifdef m rest conds st :
  run_lines inc H (Ifdef m :: rest) conds st
  = run_lines inc H rest (Cond (live conds) (defined m st) false :: conds) st.
Proof. reflexivity. Qed.

Lemma step_ifndef m rest conds st :
  run_lines inc H (Ifndef m :: rest) conds st
  = run_lines inc H rest
      (Cond (live conds) (negb (defined m st)) false :: conds) st.
Proof. reflexivity. Qed.

Lemma step_else rest e h cs st :
  run_lines inc H (Else_ :: rest) (Cond e h false :: cs) st
  = run_lines inc H rest (Cond e h true :: cs) st.
Proof. reflexivity. Qed.

Lemma step_endif rest c cs st :
  run_lines inc H (Endif :: rest) (c :: cs) st = run_lines inc H rest cs st.
Proof. reflexivity. Qed.

Lemma step_define m body rest conds M o :
  run_lines inc H (Define m body :: rest) conds (State M o)
  = if live conds then
      match M !! m with
      | None => run_lines inc H rest conds (State (<[m:=ObjectLike body]> M) o)
      | Some d' =>
          if decide (d' = ObjectLike body)
          then run_lines inc H rest conds (State M o)
          else Err (Redefined m)
      end
    else run_lines inc H rest conds (State M o).
Proof.
  cbn [run_lines]. destruct (live conds); [|reflexivity].
  unfold define. cbn [macros output].
  destruct (M !! m) as [d'|]; [|reflexivity].
  destruct (decide (d' = ObjectLike body)); reflexivity.
Qed.

Lemma step_text ts rest conds st :
  run_lines inc H (Text ts :: rest) conds st
  = if live conds then st' ← emit ts st; run_lines inc H rest conds st'
    else run_lines inc H rest conds st.
Proof. reflexivity. Qed.

Lemma emit_then_endif ts c st :
  (st' ← emit ts st; run_lines inc H [Endif] [c] st') = emit ts st.
Proof. destruct (emit ts st); reflexivity. Qed.

End Steps.

Ltac conds := cbn [live enclosing holds in_else negb andb].

Ltac flags :=
  rewrite ?defined_insert_ne by done;
  repeat match goal with E : defined _ _ = _ |- _ => rewrite E end;
  conds.

Ltac header_step :=
  lazymatch goal with
  | |- run_lines _ _ (Ifdef _ :: _) _ _ = _ => rewrite step_ifdef; flags
  | |- run_lines _ _ (Ifndef _ :: _) _ _ = _ => rewrite step_ifndef; flags
  | |- run_lines _ _ (Else_ :: _) _ _ = _ => rewrite step_else
  | |- run_lines _ _ (Endif :: _) _ _ = _ => rewrite step_endif
  | |- run_lines _ _ (Define _ _ :: _) _ _ = _ =>
      rewrite step_define; conds;
      rewrite ?lookup_insert_ne by done;
      repeat match goal with E : _ !! _ = None |- _ => rewrite E end
  | |- run_lines _ _ (Text _ :: _) _ _ = _ => rewrite step_text; conds
  end.

(** A header read where none of its macros is defined enters its four
    definitions and then writes its declaration. *)
Lemma header_effect (h : header) (d : nat) (st : state) :
  fresh (guard h :: names_of (owner h)) st →
  run (S d) headers (lines h) st
  = emit (prototype (owner h))
      (State (enter (header_macros h st) (macros st)) (output st)).
Proof.
  intros Hf. destruct st as [M o].
  destruct h;
    cbv [fresh guard names_of owner prefix String.append macros] in Hf;
    apply Forall_cons in Hf as [Hg Hf]; apply Forall_cons in Hf as [He Hf];
    apply Forall_cons in Hf as [Hi Hf]; apply Forall_cons in Hf as [Hp _];
    pose proof (defined_fresh _ (State M o) Hg) as Dg;
    cbv [lines owner header_macros visibility_macros enter prototype guard
         prefix symbol String.append foldl fst snd macros output].
  - destruct (defined "BAR_STATIC" (State M o)) eqn:Ds;
    destruct (defined "_WIN32" (State M o)) eqn:Dw;
    destruct (defined "BAR_BUILD" (State M o)) eqn:Db;
    unfold bar_h; cbn [run]; repeat header_step;
    rewrite emit_then_endif; reflexivity.
  - destruct (defined "FOO_STATIC" (State M o)) eqn:Ds;
    destruct (defined "_WIN32" (State M o)) eqn:Dw;
    destruct (defined "FOO_BUILD" (State M o)) eqn:Db;
    unfold foo_h; cbn [run]; repeat header_step;
    rewrite emit_then_endif; reflexivity.
Qed.

(** *** Replacing a macro that names a macro *)

(** Text that names no macro is passed on as it is. *)
Lemma scan_plain rec M hide ts :
  (∀ x, Id x ∈ ts → M !! x = None) → scan rec M hide ts O = Ok ts.
Proof.
  induction ts as [|t rest IH]; intros Hts; [reflexivity|].
  cbn [scan]. rewrite IH by (intros x Hx; apply Hts; right; exact Hx).
  destruct t as [x| | |]; try reflexivity.
  rewrite (Hts x) by left. destruct (decide (x ∈ hide)); reflexivity.
Qed.

Lemma expand_at_plain d M hide ts :
  (∀ x, Id x ∈ ts → M !! x = None) → expand_at (S d) M hide ts = Ok ts.
Proof. apply scan_plain. Qed.

Lemma scan_object rec M hide x body rest :
  x ∉ hide → M !! x = Some (ObjectLike body) →
  scan rec M hide (Id x :: rest) O
  = b ← rec (x :: hide) body; r ← scan rec M hide rest O; Ok (b ++ r).
Proof.
  intros Hx Hm. cbn [scan]. rewrite Hm.
  destruct (decide (x ∈ hide)); [contradiction | reflexivity].
Qed.

Lemma expand_at_unfold d M hide ts :
  expand_at (S d) M hide ts = scan (expand_at d M) M hide ts O.
Proof. reflexivity. Qed.

Lemma expand_chain M outer inner body rest :
  outer ≠ inner →
  M !! outer = Some (ObjectLike [Id inner]) →
  M !! inner = Some (ObjectLike body) →
  (∀ x, Id x ∈ body ++ rest → M !! x = None) →
  expand M (Id outer :: rest) = Ok (body ++ rest).
Proof.
  intros Hne Ho Hi Hplain. unfold expand.
  assert (2 ≤ size M)%nat as Hsize.
  { apply (hidden_names_bounded M [outer; inner]).
    - apply NoDup_cons. split; [|apply NoDup_singleton].
      intros Hx%list_elem_of_singleton. contradiction.
    - intros x Hx. apply elem_of_cons in Hx as [->|Hx]; [eauto|].
      apply elem_of_cons in Hx as [->|Hx]; [eauto | inversion Hx]. }
  destruct (size M) as [|[|k]]; [lia..|].
  cbn [Nat.add]. rewrite expand_at_unfold.
  rewrite (scan_object _ _ _ _ _ _ (not_elem_of_nil outer) Ho).
  rewrite expand_at_unfold.
  assert (inner ∉ [outer]) as Hin
    by (intros Hx%list_elem_of_singleton; exact (Hne (eq_sym Hx))).
  rewrite (scan_object _ _ _ _ _ _ Hin Hi).
  rewrite expand_at_plain
    by (intros x Hx; apply Hplain, elem_of_app; left; exact Hx).
  cbn [scan mbind result_bind].
  rewrite scan_plain
    by (intros x Hx; apply Hplain, elem_of_app; right; exact Hx).
  cbn. rewrite app_nil_r. reflexivity.
Qed.

Ltac lookup_new :=
  rewrite ?lookup_insert_ne by done;
  first [apply lookup_insert_eq | assumption].

Ltac plain_words :=
  let x := fresh "x" in
  let Hx := fresh "Hx" in
  intros x Hx;
  repeat (apply elem_of_cons in Hx as [Hx|Hx];
          [first [injection Hx as ->; lookup_new | discriminate Hx]|]);
  inversion Hx.

Lemma header_result (h : header) (d : nat) (st : state) :
  fresh (header_names h) st →
  run (S d) headers (lines h) st
  = Ok (State (enter (header_macros h st) (macros st))
          (output st ++ declared (owner h) st)).
Proof.
  intros Hf. unfold header_names in Hf.
  rewrite header_effect
    by (apply Forall_cons in Hf as [Hg Hf]; apply Forall_app in Hf as [Hn _];
        apply Forall_cons; split; assumption).
  destruct st as [M o]. unfold emit.
  destruct h;
    cbv [fresh guard names_of owner words symbol prefix String.append macros
         app] in Hf;
    repeat (apply Forall_cons in Hf as [? Hf]);
    cbv [owner header_macros visibility_macros enter prototype guard prefix
         symbol String.append foldl fst snd macros output declared
         declaration Spec.attribute].
  - destruct (defined "BAR_STATIC" (State M o));
    destruct (defined "_WIN32" (State M o));
    destruct (defined "BAR_BUILD" (State M o));
    (erewrite expand_chain; cycle 2;
       [lookup_new | lookup_new | plain_words | reflexivity | done]).
  - destruct (defined "FOO_STATIC" (State M o));
    destruct (defined "_WIN32" (State M o));
    destruct (defined "FOO_BUILD" (State M o));
    (erewrite expand_chain; cycle 2;
       [lookup_new | lookup_new | plain_words | reflexivity | done]).
Qed.

(** *** Entering definitions *)

Lemma enter_cons d ds M : enter (d :: ds) M = enter ds (<[d.1:=d.2]> M).
Proof. reflexivity. Qed.

Lemma lookup_enter_ne ds m M : m ∉ ds.*1 → enter ds M !! m = M !! m.
Proof.
  revert M. induction ds as [|[k v] ds IH]; intros M Hm; [reflexivity|].
  rewrite fmap_cons in Hm. apply not_elem_of_cons in Hm as [Hne Hm].
  rewrite enter_cons, (IH _ Hm). cbn [fst snd] in *.
  apply lookup_insert_ne. congruence.
Qed.

Lemma enter_insert ds k v M :
  k ∉ ds.*1 → enter ds (<[k:=v]> M) = <[k:=v]> (enter ds M).
Proof.
  revert M. induction ds as [|[k' v'] ds IH]; intros M Hk; [reflexivity|].
  rewrite fmap_cons in Hk. apply not_elem_of_cons in Hk as [Hne Hk].
  rewrite !enter_cons. cbn [fst snd] in *.
  rewrite <- (IH _ Hk). f_equal. apply insert_insert_ne. congruence.
Qed.

Lemma enter_commute ds1 ds2 M :
  (∀ k, k ∈ ds1.*1 → k ∉ ds2.*1) →
  enter ds2 (enter ds1 M) = enter ds1 (enter ds2 M).
Proof.
  revert M. induction ds1 as [|[k v] ds1 IH]; intros M Hd; [reflexivity|].
  rewrite !enter_cons. cbn [fst snd].
  rewrite IH by (intros k' Hk'; apply Hd; rewrite fmap_cons; right; exact Hk').
  rewrite enter_insert by (apply Hd; rewrite fmap_cons; left).
  reflexivity.
Qed.

Lemma header_keys h st :
  (header_macros h st).*1 = guard h :: names_of (owner h).
Proof. destruct h; reflexivity. Qed.

Lemma other_header_names h h' :
  h ≠ h' →
  Forall (λ m, m ∉ guard h :: names_of (owner h))
    (header_names h' ++ ["_WIN32"; prefix (owner h') +:+ "_STATIC";
                         prefix (owner h') +:+ "_BUILD"]).
Proof.
  destruct h, h'; intros Hne; try contradiction; compute_done.
Qed.

(** What one header defines does not touch what the other one reads. *)
Lemma other_header_kept h h' st o' :
  h ≠ h' →
  let st' := State (enter (header_macros h st) (macros st)) o' in
  fresh (header_names h') st → fresh (header_names h') st'
  ∧ header_macros h' st' = header_macros h' st
  ∧ declared (owner h') st' = declared (owner h') st.
Proof.
  intros Hne st'. pose proof (other_header_names h h' Hne) as Hn.
  rewrite <- (header_keys h st) in Hn.
  apply Forall_app in Hn as [Hnames Hflags].
  apply Forall_cons in Hflags as [Hw Hflags].
  apply Forall_cons in Hflags as [Hs Hflags].
  apply Forall_cons in Hflags as [Hb _].
  assert (∀ m, m ∉ (header_macros h st).*1 → defined m st' = defined m st)
    as Hdef.
  { intros m Hm. unfold defined, st'. cbn [macros].
    rewrite lookup_enter_ne by exact Hm. reflexivity. }
  intros Hf. split; [|split].
  - unfold fresh in *. rewrite Forall_forall in *. intros m Hm.
    unfold st'. cbn [macros]. rewrite lookup_enter_ne by (apply Hnames, Hm).
    apply Hf, Hm.
  - unfold header_macros, visibility_macros.
    rewrite !Hdef by assumption. reflexivity.
  - unfold declared. rewrite !Hdef by assumption. reflexivity.
Qed.

Lemma both_headers_result (h h' : header) (ls : list line) (d : nat)
    (st : state) :
  h ≠ h' → ls = [Include (path h); Include (path h')] →
  fresh (header_names h) st → fresh (header_names h') st →
  run (S (S d)) headers ls st
  = Ok (State (enter (header_macros h' st)
                 (enter (header_macros h st) (macros st)))
          (output st ++ declared (owner h) st ++ declared (owner h') st)).
Proof.
  intros Hne -> Hf Hf'.
  assert (∀ x, headers !! path x = Some (lines x)) as Hp
    by (intros []; [exact headers_bar | exact headers_foo]).
  rewrite (run_include _ _ _ _ _ _ (Hp h)), (header_result h _ _ Hf).
  cbn [mbind result_bind].
  destruct (other_header_kept h h' st (output st ++ declared (owner h) st)
              Hne Hf') as (Hf1 & Hm & Hd).
  rewrite (run_include _ _ _ _ _ _ (Hp h')), (header_result h' _ _ Hf1).
  cbn [mbind result_bind run run_lines macros output].
  rewrite Hm, Hd, <- app_assoc. reflexivity.
Qed.

(** *** What a header leaves alone *)

Lemma run_lines_frame inc H K ls :
  stays_within K ls = true →
  ∀ conds st st',
    run_lines inc H ls conds st = Ok st' →
    (∀ m, m ∉ K → macros st' !! m = macros st !! m)
    ∧ ∃ ts, output st' = output st ++ ts.
Proof.
  assert (∀ m d st st1, m ∈ K → define m d st = Ok st1 →
            (∀ m', m' ∉ K → macros st1 !! m' = macros st !! m')
            ∧ output st1 = output st) as Hdefine.
  { intros m d st st1 Hm Hd. unfold define in Hd.
    destruct (macros st !! m) as [d'|].
    - destruct (decide (d' = d)); [|discriminate Hd].
      injection Hd as <-. split; [reflexivity..].
    - injection Hd as <-. split; [|reflexivity].
      intros m' Hm'. cbn [macros]. apply lookup_insert_ne. congruence. }
  induction ls as [|l rest IH]; intros Hk conds st st' R.
  - cbn in R. destruct conds; [|discriminate R]. injection R as <-.
    split; [reflexivity|]. exists []. symmetry. apply app_nil_r.
  - unfold stays_within in Hk. cbn [forallb] in Hk.
    apply andb_prop in Hk as [Hl Hk]. specialize (IH Hk).
    cbn [run_lines] in R.
    destruct l; cbn [defines_within] in Hl; try discriminate Hl;
      try solve [eapply IH; exact R].
    + destruct conds as [|c cs]; [discriminate R|].
      destruct (in_else c); [discriminate R | eapply IH; exact R].
    + destruct conds as [|c cs]; [discriminate R | eapply IH; exact R].
    + destruct (live conds); [|eapply IH; exact R].
      destruct (define m (ObjectLike body) st) as [st1|] eqn:Hd;
        [|discriminate R].
      cbn in R. apply bool_decide_eq_true in Hl.
      destruct (Hdefine _ _ _ _ Hl Hd) as [Hm Ho].
      destruct (IH _ _ _ R) as [Hm' [ts Ho']].
      split; [intros m' Hk'; rewrite Hm', Hm by exact Hk'; reflexivity|].
      exists ts. rewrite Ho', Ho. reflexivity.
    + destruct (live conds); [|eapply IH; exact R].
      destruct (define m (FunctionLike params body) st) as [st1|] eqn:Hd;
        [|discriminate R].
      cbn in R. apply bool_decide_eq_true in Hl.
      destruct (Hdefine _ _ _ _ Hl Hd) as [Hm Ho].
      destruct (IH _ _ _ R) as [Hm' [ts Ho']].
      split; [intros m' Hk'; rewrite Hm', Hm by exact Hk'; reflexivity|].
      exists ts. rewrite Ho', Ho. reflexivity.
    + destruct (live conds); [|eapply IH; exact R].
      unfold emit in R.
      destruct (expand (macros st) ts) as [ts'|]; [|discriminate R].
      cbn in R. destruct (IH _ _ _ R) as [Hm' [ts'' Ho']].
      cbn [macros output] in *. split; [exact Hm'|].
      exists (ts' ++ ts''). rewrite Ho', app_assoc. reflexivity.
Qed.

(** *** The headers, read from any state *)

(** X1: read in a state that defines neither its guard nor its three
    macros, nor as macros the identifiers of the attributes and of the
    declaration, a header succeeds; it enters its guard and its three
    macros, chosen by what the state defines of [_WIN32], [<LIB>_STATIC] and
    [<LIB>_BUILD], and appends the declaration with the attribute of the
    table.  Whatever else the state defines plays no part. *)
Theorem header_declares (h : header) (d : nat) (st : state) :
  fresh (header_names h) st →
  run (S d) headers (lines h) st
  = Ok (State (enter (header_macros h st) (macros st))
          (output st ++ declared (owner h) st)).
Proof. exact (header_result h d st). Qed.

Lemma header_declares_witness :
  let st := State {[ "_WIN32" := ObjectLike [Num 1];
                     "BAR_BUILD" := ObjectLike [];
                     "__GNUC__" := ObjectLike [Num 14] ]} [Id "x"] in
  run 1 headers bar_h st
  = Ok (State (enter (header_macros BarH st) (macros st))
          ([Id "x"] ++ declaration (declspec "dllexport") "bar")).
Proof.
  refine (header_declares BarH 0 _ _). vm_compute. repeat constructor.
Defined.

(** X2: a header whose guard is defined is skipped whole, whatever the
    state: no macro changes, nothing is written, even if the macros the
    header tests have changed since it was first read. *)
Theorem guarded_header_skipped (h : header) (d : nat) (st : state) :
  defined (guard h) st = true → run (S d) headers (lines h) st = Ok st.
Proof. destruct h; [apply bar_h_guarded | apply foo_h_guarded]. Qed.

Lemma guarded_header_skipped_witness :
  let st := State {[ "XMAKERS_FOO_H" := ObjectLike [];
                     "FOO_PUBLIC_API" := ObjectLike [Id "FOO_DLL_IMPORT"];
                     "FOO_BUILD" := ObjectLike [Num 1] ]} [Id "x"] in
  run 1 headers foo_h st = Ok st.
Proof.
  refine (guarded_header_skipped FooH 0 _ _). vm_compute. reflexivity.
Defined.

(** X3: [bar.h] and [foo.h] can be included in either order.  From a state
    in which both are yet to be read, both orders end with the same macros,
    and each writes the two declarations in the order of inclusion, each
    with the attribute its own macros select. *)
Theorem headers_commute (d : nat) (st : state) :
  fresh (header_names BarH) st → fresh (header_names FooH) st →
  ∃ M,
    run (S (S d)) headers (both_headers BarH) st
    = Ok (State M (output st ++ declared Bar st ++ declared Foo st))
    ∧ run (S (S d)) headers (both_headers FooH) st
      = Ok (State M (output st ++ declared Foo st ++ declared Bar st)).
Proof.
  intros Hb Hf.
  exists (enter (header_macros FooH st)
            (enter (header_macros BarH st) (macros st))).
  split.
  - apply (both_headers_result BarH FooH); [discriminate | reflexivity | ..];
      assumption.
  - rewrite (both_headers_result FooH BarH (both_headers FooH) d st
               ltac:(discriminate)
               eq_refl Hf Hb).
    rewrite (enter_commute (header_macros FooH st) (header_macros BarH st));
      [reflexivity|].
    intros k Hk. rewrite header_keys in *.
    cbv [guard names_of owner prefix String.append] in *.
    repeat (apply elem_of_cons in Hk as [->|Hk]; [compute_done|]).
    inversion Hk.
Qed.

Lemma headers_commute_witness :
  let st := State {[ "FOO_STATIC" := ObjectLike [Num 1] ]} [] in
  ∃ M,
    run 2 headers (both_headers BarH) st
    = Ok (State M (output st ++ declared Bar st ++ declared Foo st))
    ∧ run 2 headers (both_headers FooH) st
      = Ok (State M (output st ++ declared Foo st ++ declared Bar st)).
Proof.
  refine (headers_commute 0 _ _ _); vm_compute; repeat constructor.
Defined.

(** X4: whatever the state it is read in, a header that succeeds changes
    no macro but its guard and its three macros, and only adds to the
    text. *)
Theorem header_frame (h : header) (d : nat) (st st' : state) :
  run (S d) headers (lines h) st = Ok st' →
  (∀ m, m ∉ guard h :: names_of (owner h) →
        macros st' !! m = macros st !! m)
  ∧ ∃ ts, output st' = output st ++ ts.
Proof.
  intros R.
  refine (run_lines_frame _ _ (guard h :: names_of (owner h)) (lines h) _
            [] st st' R).
  destruct h; vm_compute; reflexivity.
Qed.

Lemma header_frame_witness :
  let st := State {[ "NDEBUG" := ObjectLike [Num 1] ]} [Id "x"] in
  let st' := State (enter (header_macros BarH st) (macros st))
               ([Id "x"] ++ declaration gnu_visibility_default "bar") in
  (∀ m, m ∉ guard BarH :: names_of Bar → macros st' !! m = macros st !! m)
  ∧ ∃ ts, output st' = output st ++ ts.
Proof.
  refine (header_frame BarH 0 _ _ _). vm_compute. reflexivity.
Defined.

(** *** [target.c] *)




(** X7: [target()] is decided by its one call of [bar()], whatever [bar]
    is and in every configuration: if [bar()] does not return, neither does
    [target()], with the same failure; if it returns 456, [target()]
    returns 789 and leaves the memory as [bar()] left it; if it returns
    anything else, the process aborts. *)
Theorem target_outcome (world : Type) (c : config) (bar : comp world Z)
    (w : world) :
  call_target c bar w
  = Ok match bar w with
       | Returns b w' => if b =? 456 then Returns 789 w' else Aborts
       | Aborts => Aborts
       | Unresolved s => Unresolved s
       end.
Proof.
  unfold call_target. rewrite compile_target_checked. cbn [mbind result_bind].
  f_equal. unfold target, mbind, comp_bind.
  destruct (bar w) as [b w'| |s]; [|reflexivity..].
  unfold c_assert. destruct (b =? 456); reflexivity.
Qed.

(** *** Which macros matter when *)

(** X8: the build role of a library changes the attribute of its
    declaration exactly on a Windows-style platform with dynamic linkage,
    and the platform changes it exactly with dynamic linkage. *)
Theorem role_and_platform_matter (L : lib) (c : config) :
  (public_api L (set_owner L true c) = public_api L (set_owner L false c)
   ↔ windows c = false ∨ is_static c L = true)
  ∧ (public_api L (set_windows true c) = public_api L (set_windows false c)
     ↔ is_static c L = true).
Proof.
  destruct L, c as [[] [] [] [] [] [] [] []]; vm_compute;
    (split; split;
     first [ intros _; first [reflexivity | left; reflexivity
                             | right; reflexivity]
           | intros HH; first [discriminate HH
                              | destruct HH as [HH|HH]; discriminate HH] ]).
Qed.
